(** * Quantization weight tables (jxl/quant_weights.h)

    A shallow embedding of the declarations of [jxl/quant_weights.h]:
    the [QuantEncoding] tagged union with its hand-written ownership of the
    RAW table, the static tables of [DequantMatrices], its accessors and
    the two setters [SetCustom] and [SetCustomDC].

    The bodies of [Compute], [Encode], [Decode], [EncodeDC] and [DecodeDC]
    live in [quant_weights.cc]; the header only declares them.  They are
Section variables wherever a header function calls them. *)

From Stdlib Require Import ZArith List Lia Bool QArith.
From Stdlib Require Import Floats.SpecFloat.
From stdpp Require Import base gmap list.

Local Open Scope Z_scope.

(** ** Single precision floats

    C++ [float] is IEEE-754 binary32: 24 bits of precision, exponents
    below 128.  The operations are the Standard Library's executable
    specification, instantiated at this format. *)

Module F32.

Definition prec : Z := 24.
Definition emax : Z := 128.

Definition t : Type := spec_float.

(** The literal [m * 2^e], rounded to nearest even. *)
Definition lit (m : Z) (e : Z) : t := binary_normalize prec emax m e false.

Definition one : t := lit 1 0.
Definition zero : t := S754_zero false.

Definition div (x y : t) : t := SFdiv prec emax x y.

Definition valid (x : t) : bool := valid_binary prec emax x.

Definition is_finite (x : t) : bool :=
  match x with
  | S754_zero _ | S754_finite _ _ _ => true
  | S754_infinity _ | S754_nan => false
  end.

(** The rational a finite float denotes (0 for the others). *)
Definition toQ (x : t) : Q :=
  match x with
  | S754_finite s m e =>
      let z := if s then Z.neg m else Z.pos m in
      match e with
      | Z0 => inject_Z z
      | Z.pos p => inject_Z (z * 2 ^ Z.pos p)
      | Z.neg p => Qmake z (2 ^ p)%positive
      end
  | _ => 0%Q
  end.

End F32.

(** ** Fail-fast control flow

    [JXL_ASSERT], [JXL_CHECK] and [::jxl::Abort] terminate the process.  A
    function that may reach one of them yields an [outcome]: it either
    returns, or the process is gone and nothing is returned. *)

Inductive outcome (A : Type) : Type :=
| Returned (a : A)
| Aborted.
Arguments Returned {A} a.
Arguments Aborted {A}.

#[global] Instance outcome_ret : MRet outcome := fun _ a => Returned a.
#[global] Instance outcome_bind : MBind outcome := fun _ _ k m =>
  match m with
  | Returned a => k a
  | Aborted => Aborted
  end.

(** [JXL_ASSERT(c)] and [JXL_CHECK(c)]. *)
Definition JXL_ASSERT (c : bool) : outcome unit :=
  if c then Returned tt else Aborted.
Definition JXL_CHECK (c : bool) : outcome unit :=
  if c then Returned tt else Aborted.

(** ** Constants *)

(** Modelled from the spec: [kDCTBlockSize] is declared in [jxl/common.h];
    the spec gives it as the 8x8 block size, 64 coefficients. *)
Definition kDCTBlockSize : Z := 64.

Definition kMaxQuantTableSize : Z := kDCTBlockSize * 16.
Definition kNumPredefinedTables : Z := 1.
Definition kCeilLog2NumPredefinedTables : Z := 0.
Definition kLog2NumQuantModes : Z := 3.

(** [AcStrategy::kNumValidStrategies], pinned by the header's
    [static_assert]. *)
Definition kNumValidStrategies : nat := 18.

(** [size_t] is an unsigned integer of 64 bits; its arithmetic wraps. *)
Definition size_t_modulus : Z := 2 ^ 64.
Definition wrap_size_t (x : Z) : Z := x mod size_t_modulus.

(** The values of [size_t]. *)
Definition is_size_t (x : Z) : Prop := 0 <= x < size_t_modulus.

(** [ArraySum(a, i)]: [i == 0 ? a[0] : a[i] + ArraySum(a, i - 1)], with the
    element type [size_t], the one the header uses it at. *)
Fixpoint ArraySum (a : list Z) (i : nat) : Z :=
  match i with
  | O => nth 0 a 0
  | S j => wrap_size_t (nth i a 0 + ArraySum a j)
  end.

(** The default second argument, [N - 1]. *)
Definition ArraySumAll (a : list Z) : Z := ArraySum a (length a - 1)%nat.

(** ** Distance bands *)

Module DctQuantWeightParams.

Definition kLog2MaxDistanceBands : Z := 4.
Definition kMaxDistanceBands : Z := 1 + Z.shiftl 1 kLog2MaxDistanceBands.

(** [distance_bands] is a 3 x kMaxDistanceBands array. *)
Record t : Type := mk {
  num_distance_bands : Z;
  distance_bands : list (list F32.t)
}.

(** The default constructor: no bands, zeroed array. *)
Definition default : t :=
  mk 0 (repeat (repeat F32.zero (Z.to_nat kMaxDistanceBands)) 3).

(** [DctQuantWeightParams(dist_bands, num_dist_bands)] *)
Definition of_array (dist_bands : list (list F32.t)) (num_dist_bands : Z) : t :=
  mk num_dist_bands dist_bands.

(** [memcpy(dst, src, sizeof(float) * n)] between arrays of floats: the
    first [n] floats of [dst] are overwritten; going past the end of
    either array is undefined. *)
Definition memcpy (dst src : list F32.t) (n : nat) : option (list F32.t) :=
  if (n <=? length dst)%nat && (n <=? length src)%nat
  then Some (take n src ++ drop n dst)
  else None.

(** The loop of the template constructor, [c] running over the channels. *)
Fixpoint copy_rows (bands dist_bands : list (list F32.t)) (n c count : nat)
    : option (list (list F32.t)) :=
  match count with
  | O => Some bands
  | S count' =>
      dst ← bands !! c;
      src ← dist_bands !! c;
      row ← memcpy dst src n;
      copy_rows (<[c := row]> bands) dist_bands n (S c) count'
  end.

(** [template <size_t num_dist_bands> DctQuantWeightParams(const float
    dist_bands[3][num_dist_bands])], over the zeroed default members. *)
Definition of_bands (dist_bands : list (list F32.t)) (num_dist_bands : nat)
    : option t :=
  rows ← copy_rows (distance_bands default) dist_bands num_dist_bands 0 3;
  Some (mk (Z.of_nat num_dist_bands) rows).

End DctQuantWeightParams.

(** ** QuantEncodingInternal *)

Inductive Mode : Type :=
| kQuantModeLibrary
| kQuantModeID
| kQuantModeDCT2
| kQuantModeDCT4
| kQuantModeDCT4X8
| kQuantModeAFV
| kQuantModeDCT
| kQuantModeRAW.

#[global] Instance Mode_eq_dec : EqDecision Mode.
Proof. solve_decision. Defined.

Definition is_raw (m : Mode) : bool :=
  match m with kQuantModeRAW => true | _ => false end.

Definition IdWeights : Type := list (list F32.t).
Definition DCT2Weights : Type := list (list F32.t).
Definition DCT4Multipliers : Type := list (list F32.t).
Definition AFVWeights : Type := list (list F32.t).
Definition DCT4x8Multipliers : Type := list F32.t.

Section Encoding.

(** How the RAW variant holds its table: a pointer for the class as it is
    written, the pointee where only the contents matter. *)
Context {P : Type}.

(** The anonymous union; the constructor records the active member. *)
Inductive Payload : Type :=
| U_idweights (w : IdWeights)
| U_dct2weights (w : DCT2Weights)
| U_dct4multipliers (w : DCT4Multipliers)
| U_afv_weights (w : AFVWeights)
| U_dct4x8multipliers (w : DCT4x8Multipliers)
| U_qraw (qtable : P) (qtable_den_shift : Z).

Record QuantEncodingInternal : Type := mkQE {
  mode : Mode;
  dct_params : DctQuantWeightParams.t;
  payload : Payload;
  dct_params_afv_4x4 : DctQuantWeightParams.t;
  (* the union of [predefined] and [source], one uint8_t *)
  predefined : Z
}.

(** The union's default member initializer, [afv_weights = {}]. *)
Definition payload_default : Payload :=
  U_afv_weights (repeat (repeat F32.zero 9) 3).

(** [QuantEncodingInternal::Library]: the comma expression aborts unless
    [predefined < kNumPredefinedTables]. *)
Definition Library_internal (idx : Z) : outcome QuantEncodingInternal :=
  if idx <? kNumPredefinedTables
  then Returned (mkQE kQuantModeLibrary DctQuantWeightParams.default
                      payload_default DctQuantWeightParams.default idx)
  else Aborted.

Definition Identity_internal (xybweights : IdWeights) : QuantEncodingInternal :=
  mkQE kQuantModeID DctQuantWeightParams.default (U_idweights xybweights)
       DctQuantWeightParams.default 0.

Definition DCT2_internal (xybweights : DCT2Weights) : QuantEncodingInternal :=
  mkQE kQuantModeDCT2 DctQuantWeightParams.default (U_dct2weights xybweights)
       DctQuantWeightParams.default 0.

Definition DCT4_internal (params : DctQuantWeightParams.t)
    (xybmul : DCT4Multipliers) : QuantEncodingInternal :=
  mkQE kQuantModeDCT4 params (U_dct4multipliers xybmul)
       DctQuantWeightParams.default 0.

Definition DCT4X8_internal (params : DctQuantWeightParams.t)
    (xybmul : DCT4x8Multipliers) : QuantEncodingInternal :=
  mkQE kQuantModeDCT4X8 params (U_dct4x8multipliers xybmul)
       DctQuantWeightParams.default 0.

Definition DCT_internal (params : DctQuantWeightParams.t)
    : QuantEncodingInternal :=
  mkQE kQuantModeDCT params payload_default DctQuantWeightParams.default 0.

Definition AFV_internal (params4x8 params4x4 : DctQuantWeightParams.t)
    (weights : AFVWeights) : QuantEncodingInternal :=
  mkQE kQuantModeAFV params4x8 (U_afv_weights weights) params4x4 0.

(** [explicit QuantEncodingInternal(Mode mode)]. *)
Definition of_mode (m : Mode) : QuantEncodingInternal :=
  mkQE m DctQuantWeightParams.default payload_default
       DctQuantWeightParams.default 0.

(** Assignments to [qraw.qtable] and [qraw.qtable_den_shift].  Writing a
    member of [qraw] makes it the active member; the sibling field keeps
    its value, or is zero when the union last held the zeroed default. *)
Definition payload_shift (u : Payload) : Z :=
  match u with U_qraw _ s => s | _ => 0 end.

Definition set_qtable (p : P) (e : QuantEncodingInternal)
    : QuantEncodingInternal :=
  mkQE (mode e) (dct_params e) (U_qraw p (payload_shift (payload e)))
       (dct_params_afv_4x4 e) (predefined e).

End Encoding.

Arguments Payload : clear implicits.
Arguments QuantEncodingInternal : clear implicits.

(** ** QuantEncoding: the owning subclass

    [std::vector<int>*] is a location in a store of vectors, or null.  An
    operation that would dereference or delete a pointer the store does
    not hold has undefined behaviour: it yields [None]. *)

Module QuantEncoding.

Abbreviation loc := nat.
Abbreviation ptr := (option nat).
Abbreviation heap := (gmap nat (list Z)).
Definition nullptr : ptr := None.

Definition t : Type := QuantEncodingInternal ptr.

(** [new std::vector<int>(v)] *)
Definition new_vector (h : heap) (v : list Z) : loc * heap :=
  let l := fresh (dom h) in (l, <[l := v]> h).

(** [delete p] for a non-null [p] *)
Definition delete_vector (h : heap) (l : loc) : option heap :=
  match h !! l with
  | Some _ => Some (delete l h)
  | None => None
  end.

(** Reading [qraw.qtable].  Every read in the class is guarded by
    [mode == kQuantModeRAW]; over the zeroed default member the bytes
    read as null. *)
Definition qraw_qtable (e : t) : ptr :=
  match payload e with
  | U_qraw p _ => p
  | _ => nullptr
  end.

Definition qraw_qtable_den_shift (e : t) : Z := payload_shift (payload e).

(** [QuantEncoding(const QuantEncoding& other)] *)
Definition copy_ctor (h : heap) (other : t) : option (heap * t) :=
  let this := other in
  if is_raw (mode this) then
    match qraw_qtable this with
    | Some _ =>
        match qraw_qtable other with
        | Some lo =>
            v ← h !! lo;
            let '(l, h') := new_vector h v in
            Some (h', set_qtable (Some l) this)
        | None => None
        end
    | None => Some (h, this)
    end
  else Some (h, this).

(** [QuantEncoding(QuantEncoding&& other)]: the new object and what is
    left of [other]. *)
Definition move_ctor (other : t) : t * t :=
  let this := other in
  if is_raw (mode this)
  then (this, set_qtable nullptr other)
  else (this, other).

(** [operator=(const QuantEncoding& other)], for [other] a different
    object than [this]. *)
Definition copy_assign (h : heap) (this other : t) : option (heap * t) :=
  h1 ← (if is_raw (mode this) then
          match qraw_qtable this with
          | Some l => delete_vector h l
          | None => Some h
          end
        else Some h);
  let this := other in
  if is_raw (mode this) then
    match qraw_qtable this with
    | Some _ =>
        match qraw_qtable other with
        | Some lo =>
            v ← h1 !! lo;
            let '(l, h2) := new_vector h1 v in
            Some (h2, set_qtable (Some l) this)
        | None => None
        end
    | None => Some (h1, this)
    end
  else Some (h1, this).

(** [~QuantEncoding()] *)
Definition dtor (h : heap) (this : t) : option heap :=
  if is_raw (mode this) then
    match qraw_qtable this with
    | Some l => delete_vector h l
    | None => Some h
    end
  else Some h.

(** The wrappers go through the private converting constructor, a plain
    member-wise copy. *)
Definition Library (idx : Z) : outcome t := Library_internal idx.
Definition Identity (w : IdWeights) : t := Identity_internal w.
Definition DCT2 (w : DCT2Weights) : t := DCT2_internal w.
Definition DCT4 (p : DctQuantWeightParams.t) (m : DCT4Multipliers) : t :=
  DCT4_internal p m.
Definition DCT4X8 (p : DctQuantWeightParams.t) (m : DCT4x8Multipliers) : t :=
  DCT4X8_internal p m.
Definition DCT (p : DctQuantWeightParams.t) : t := DCT_internal p.
Definition AFV (p4x8 p4x4 : DctQuantWeightParams.t) (w : AFVWeights) : t :=
  AFV_internal p4x8 p4x4 w.

(** [RAW(qtable, shift)]: a new empty vector, assigned the caller's
    table, then the shift. *)
Definition RAW (h : heap) (qtable : list Z) (shift : Z) : heap * t :=
  let encoding := of_mode kQuantModeRAW in
  let '(l, h1) := new_vector h [] in
  let encoding := set_qtable (Some l) encoding in
  let h2 := <[l := qtable]> h1 in
  let encoding :=
    mkQE (mode encoding) (dct_params encoding)
         (U_qraw (qraw_qtable encoding) shift)
         (dct_params_afv_4x4 encoding) (predefined encoding) in
  (h2, encoding).

(** [e] is in RAW mode and its table pointer leads to [v]. *)
Definition owns (h : heap) (e : t) (l : loc) (v : list Z) : Prop :=
  mode e = kQuantModeRAW /\ qraw_qtable e = Some l /\ h !! l = Some v.

(** Two tables built by [RAW] one after the other, and an identity
    encoding. *)
Definition heap1 : heap := (RAW ∅ [8; 8; 9] 0).1.
Definition raw1 : t := (RAW ∅ [8; 8; 9] 0).2.
Definition heap2 : heap := (RAW heap1 [4; 5] 1).1.
Definition raw2 : t := (RAW heap1 [4; 5] 1).2.

(** The table an instance is responsible for releasing: the one its
    destructor deletes. *)
Definition owned (e : t) : list loc :=
  if is_raw (mode e) then
    match qraw_qtable e with
    | Some l => [l]
    | None => []
    end
  else [].

Definition owned_by (es : list t) : list loc := es ≫= owned.

(** The live objects [es] own the store [h]: no table has two owners,
    every owned pointer leads to a table and every table has an owner. *)
Definition well_owned (h : heap) (es : list t) : Prop :=
  NoDup (owned_by es) /\ dom h = list_to_set (owned_by es).

(** Destroying the objects [es] one after the other, as a vector of them
    does with its elements. *)
Fixpoint destroy_all (h : heap) (es : list t) : option heap :=
  match es with
  | [] => Some h
  | e :: es' => h' ← dtor h e; destroy_all h' es'
  end.

End QuantEncoding.

(** ** DC quantizers *)

Definition kInvDCQuant : list F32.t :=
  [F32.lit 4096 0; F32.lit 512 0; F32.lit 256 0].

Definition kDCQuant : list F32.t :=
  map (fun inv => F32.div F32.one inv) kInvDCQuant.

(** ** Bit writer and reader

    [BitWriter] and [BitReader] are declared in [enc_bit_writer.h] and
    [dec_bit_reader.h].  A writer is the bits written so far; a reader is
    the bits not yet consumed. *)

Definition bits : Type := list bool.

(** [writer.ZeroPadToByte()] *)
Definition ZeroPadToByte (w : bits) : bits :=
  w ++ repeat false ((8 - length w mod 8) mod 8)%nat.

(** ** DequantMatrices *)

Module DequantMatrices.

Inductive QuantTable : Type :=
| DCT | IDENTITY | DCT2X2 | DCT4X4 | DCT16X16 | DCT32X32
| DCT8X16 | DCT8X32 | DCT16X32 | DCT4X8 | AFV0.

#[global] Instance QuantTable_eq_dec : EqDecision QuantTable.
Proof. solve_decision. Defined.

(** The enumerators' values; [kNum] is the one past [AFV0]. *)
Definition QuantTable_value (q : QuantTable) : nat :=
  match q with
  | DCT => 0 | IDENTITY => 1 | DCT2X2 => 2 | DCT4X4 => 3 | DCT16X16 => 4
  | DCT32X32 => 5 | DCT8X16 => 6 | DCT8X32 => 7 | DCT16X32 => 8
  | DCT4X8 => 9 | AFV0 => 10
  end.
Definition kNum : nat := 11.

Definition kQuantTable : list QuantTable :=
  [ DCT;     IDENTITY; DCT2X2;
    DCT4X4;  DCT16X16; DCT32X32;
    DCT8X16; DCT8X16;  DCT8X32;
    DCT8X32; DCT16X32; DCT16X32;
    DCT4X8;  DCT4X8;   AFV0;
    AFV0;    AFV0;     AFV0 ].

Definition required_size_ : list Z := [1; 1; 1; 1; 4; 16; 2; 4; 8; 1; 1].

Definition kTotalTableSize : Z :=
  wrap_size_t (wrap_size_t (ArraySumAll required_size_ * kDCTBlockSize) * 3).

(** In the aggregate an encoding is held by value: the vector's copy
    semantics go through the deep-copying operations of
    [QuantEncoding]. *)
Definition encoding : Type := QuantEncodingInternal (list Z).

Record t : Type := mk {
  table_ : list F32.t;
  dc_quant_ : list F32.t;
  inv_dc_quant_ : list F32.t;
  table_offsets_ : list Z;
  size_ : Z;
  encodings_ : list encoding
}.

Definition set_encodings (encs : list encoding) (m : t) : t :=
  mk (table_ m) (dc_quant_ m) (inv_dc_quant_ m) (table_offsets_ m)
     (size_ m) encs.

Definition set_dc (dc inv_dc : list F32.t) (m : t) : t :=
  mk (table_ m) dc inv_dc (table_offsets_ m) (size_ m) (encodings_ m).

(** A [float*] into the buffer is its distance from [table_.get()].  The
    index [quant_kind * 3 + c] is computed in [size_t]; an index past the
    end of [table_offsets_] has no value. *)
Definition MatrixOffset (m : t) (quant_kind c : nat) : option Z :=
  table_offsets_ m
    !! Z.to_nat (wrap_size_t (Z.of_nat quant_kind * 3 + Z.of_nat c)).

Definition Matrix (m : t) (quant_kind c : nat) : option Z :=
  MatrixOffset m quant_kind c.

Definition InvTable : Z := kTotalTableSize.

Definition InvMatrix (m : t) (quant_kind c : nat) : option Z :=
  off ← MatrixOffset m quant_kind c; Some (InvTable + off).

Definition DCQuant (m : t) (c : nat) : option F32.t := dc_quant_ m !! c.
Definition InvDCQuant (m : t) (c : nat) : option F32.t :=
  inv_dc_quant_ m !! c.

Definition Size (m : t) : Z := size_ m.

(** [hwy::AllocateAligned<float>(n)]: [n] floats of unspecified
    contents. *)
Definition AllocateAligned (n : Z) (junk : nat -> F32.t) : list F32.t :=
  map junk (seq 0 (Z.to_nat n)).

(** What a successful [Compute] leaves in the members it builds. *)
Record computed : Type := mk_computed {
  c_table : list F32.t;
  c_offsets : list Z;
  c_size : Z
}.

Section Declared.

(** Defined in [quant_weights.cc].  [Compute] is the table builder:
    from the encodings and the buffer to the filled buffer, the offsets
    and the size, or failure.  The codec functions take the writer or
    reader and the object; the non-const ones return the object as
    they leave it. *)
Variable Compute : list encoding -> list F32.t -> option computed.
Variable Encode : t -> bits -> bool * bits.
Variable Decode : bits -> t -> bool * bits * t.
Variable EncodeDC : t -> bits -> bool * bits.
Variable DecodeDC : bits -> t -> bool * bits * t.
(** [BitReader::Close] *)
Variable Close : bits -> bool.

(** The constructor's loop, [encodings_[i] = QuantEncoding::Library(0)]. *)
Fixpoint assign_library (encs : list encoding) (i n : nat)
    : outcome (list encoding) :=
  match n with
  | O => Returned encs
  | S n' =>
      e ← Library_internal 0;
      assign_library (<[i := e]> encs) (S i) n'
  end.

(** The buffer of the constructor's member initialiser. *)
Definition ctor_buffer (junk : nat -> F32.t) : list F32.t :=
  AllocateAligned (2 * kTotalTableSize) junk.

(** [DequantMatrices()], ending in [JXL_CHECK(Compute())]. *)
Definition ctor (junk : nat -> F32.t) : outcome t :=
  let table := ctor_buffer junk in
  fill ← Library_internal 0;
  encs ← assign_library (replicate kNum fill) 0 kNum;
  match Compute encs table with
  | Some r =>
      Returned (mk (c_table r) kDCQuant kInvDCQuant (c_offsets r)
                   (c_size r) encs)
  | None => Aborted
  end.

(** [SetCustom] *)
Definition SetCustom (encodings : list encoding) (m : t) : outcome t :=
  _ ← JXL_ASSERT (bool_decide (length encodings = kNum));
  let m := set_encodings encodings m in
  let '(ok, writer) := Encode m [] in
  _ ← JXL_CHECK ok;
  let writer := ZeroPadToByte writer in
  let br := writer in
  let '(ok, br, m) := Decode br m in
  _ ← JXL_CHECK ok;
  _ ← JXL_CHECK (Close br);
  Returned m.

(** The loop of [SetCustomDC]; [dc] is the caller's array. *)
Fixpoint set_dc_loop (dc : nat -> F32.t) (c n : nat) (m : t) : t :=
  match n with
  | O => m
  | S n' =>
      let m := set_dc (<[c := F32.div F32.one (dc c)]> (dc_quant_ m))
                      (<[c := dc c]> (inv_dc_quant_ m)) m in
      set_dc_loop dc (S c) n' m
  end.

(** [SetCustomDC] *)
Definition SetCustomDC (dc : nat -> F32.t) (m : t) : outcome t :=
  let m := set_dc_loop dc 0 3 m in
  let '(ok, writer) := EncodeDC m [] in
  _ ← JXL_CHECK ok;
  let writer := ZeroPadToByte writer in
  let br := writer in
  let '(ok, br, m) := DecodeDC br m in
  _ ← JXL_CHECK ok;
  _ ← JXL_CHECK (Close br);
  Returned m.

End Declared.

(** *** The offset table

    [table_offsets_] is filled in [quant_weights.cc].  The spec has the
    tables back-to-back in the buffer, one per logical quant table and
    channel, and the offset table mapping (transform kind, channel) to the
    position of the kind's logical table. *)

(** Modelled from the spec: where logical table [q] starts, after the
    tables before it (blocks x 64 coefficients x 3 channels each). *)
Definition table_start (q : nat) : Z :=
  3 * kDCTBlockSize * fold_right Z.add 0 (take q required_size_).

(** Modelled from the spec: where channel [c] of logical table [q]
    starts. *)
Definition table_channel_offset (q c : nat) : Z :=
  table_start q + Z.of_nat c * (nth q required_size_ 0 * kDCTBlockSize).

(** Modelled from the spec: the contents of [table_offsets_], entry
    [kind * 3 + c] being the position of channel [c] of the logical table
    [kQuantTable[kind]]. *)
Definition fill_table_offsets : list Z :=
  flat_map (fun q => map (table_channel_offset (QuantTable_value q))
                         [0; 1; 2]%nat)
           kQuantTable.

(** *** Predicates used in the statements *)

(** [o] is a finite float denoting the rational [q]. *)
Definition denotes (o : option F32.t) (q : Q) : Prop :=
  match o with
  | Some x => F32.valid x = true /\ F32.is_finite x = true /\ (F32.toQ x == q)%Q
  | None => False
  end.

End DequantMatrices.

(** ** Sample arguments

    [Compute], [Encode], [Decode] and [BitReader::Close] are defined
    outside the header, and the header functions above take them as
    arguments.  The functions below are concrete arguments of the right
    types, for evaluating the header functions on examples.  They are not
    the functions of [quant_weights.cc]: they build no weights and carry
    no payload in the stream. *)

Module Instance.
Import DequantMatrices.

(** No integer of a RAW table is 0. *)
Definition raw_table_valid (e : encoding) : bool :=
  match mode e, payload e with
  | kQuantModeRAW, U_qraw q _ => forallb (fun x => negb (x =? 0)) q
  | _, _ => true
  end.

(** A sample table builder: it refuses a RAW table with a zero, leaves the
    buffer as it is and sets the offsets of the back-to-back layout. *)
Definition Compute (encs : list encoding) (buf : list F32.t)
    : option computed :=
  if forallb raw_table_valid encs
  then Some (mk_computed buf fill_table_offsets kTotalTableSize)
  else None.

(** The variant tag, [kLog2NumQuantModes] bits, least significant
    first. *)
Definition mode_tag (m : Mode) : bits :=
  match m with
  | kQuantModeLibrary => [false; false; false]
  | kQuantModeID => [true; false; false]
  | kQuantModeDCT2 => [false; true; false]
  | kQuantModeDCT4 => [true; true; false]
  | kQuantModeDCT4X8 => [false; false; true]
  | kQuantModeAFV => [true; false; true]
  | kQuantModeDCT => [false; true; true]
  | kQuantModeRAW => [true; true; true]
  end.

(** A sample writer: each entry's variant tag, in order. *)
Definition Encode (m : t) (w : bits) : bool * bits :=
  (true, w ++ flat_map (fun e => mode_tag (mode e)) (encodings_ m)).

(** A sample reader: it consumes the tags, checks them against the
    entries of the object, runs the sample builder and fails when that
    does. *)
Definition Decode (br : bits) (m : t) : bool * bits * t :=
  let n := (Z.to_nat kLog2NumQuantModes * length (encodings_ m))%nat in
  let tags := take n br in
  let rest := drop n br in
  if bool_decide (tags = flat_map (fun e => mode_tag (mode e)) (encodings_ m))
  then match Compute (encodings_ m) (table_ m) with
       | Some r =>
           (true, rest,
            mk (c_table r) (dc_quant_ m) (inv_dc_quant_ m) (c_offsets r)
               (c_size r) (encodings_ m))
       | None => (false, rest, m)
       end
  else (false, rest, m).

(** A sample [Close]: it accepts only zero padding shorter than a byte. *)
Definition Close (br : bits) : bool :=
  (length br <? 8)%nat && forallb negb br.

(** [Library(0)], held by value. *)
Definition library0 : encoding :=
  mkQE kQuantModeLibrary DctQuantWeightParams.default payload_default
       DctQuantWeightParams.default 0.

(** [RAW(q, shift)], held by value. *)
Definition raw_value (q : list Z) (shift : Z) : encoding :=
  mkQE kQuantModeRAW DctQuantWeightParams.default (U_qraw q shift)
       DctQuantWeightParams.default 0.

(** Eleven entries, entry 5 the RAW table 1, 2, ..., 64 with shift 0, the
    others [Library(0)]. *)
Definition custom_valid : list encoding :=
  <[5%nat := raw_value (map Z.of_nat (seq 1 64)) 0]> (replicate kNum library0).

Definition junk0 : nat -> F32.t := fun _ => F32.zero.

(** The object the constructor returns with the sample builder. *)
Definition default_matrices : t :=
  mk (ctor_buffer junk0) kDCQuant kInvDCQuant fill_table_offsets
     kTotalTableSize (replicate kNum library0).

End Instance.

(** * Properties *)

(** ** Sizes and layout of the buffer *)

Section ArraySumFacts.

Lemma sum_take_S (a : list Z) (i : nat) :
  (i < length a)%nat ->
  fold_right Z.add 0 (take (S i) a) = nth i a 0 + fold_right Z.add 0 (take i a).
Proof.
  revert i; induction a as [|x a IH]; intros i Hi; simpl in Hi; [lia|].
  destruct i as [|i]; simpl.
  - lia.
  - rewrite (IH i) by lia. lia.
Qed.

(** The recursion adds up the first [i + 1] elements, in [size_t]. *)
Lemma ArraySum_take (a : list Z) (i : nat) :
  Forall is_size_t a -> (i < length a)%nat ->
  ArraySum a i = wrap_size_t (fold_right Z.add 0 (take (S i) a)).
Proof.
  intros Ha. induction i as [|i IH]; intros Hi.
  - destruct a as [|x a]; simpl in *; [lia|].
    apply Forall_cons in Ha as [Hx _]. unfold wrap_size_t.
    rewrite Z.add_0_r. symmetry. apply Z.mod_small. exact Hx.
  - cbn [ArraySum]. rewrite IH by lia. rewrite (sum_take_S a (S i)) by lia.
    unfold wrap_size_t. apply Zplus_mod_idemp_r.
Qed.

Lemma ArraySumAll_sum (a : list Z) :
  Forall is_size_t a -> a <> [] ->
  ArraySumAll a = wrap_size_t (fold_right Z.add 0 a).
Proof.
  intros Hs Ha. unfold ArraySumAll.
  assert (0 < length a)%nat by (destruct a; simpl; [congruence | lia]).
  rewrite ArraySum_take by (assumption || lia).
  replace (S (length a - 1)) with (length a) by lia.
  now rewrite firstn_all.
Qed.

End ArraySumFacts.

(** Looking up in a concatenation of chunks of one length. *)
Lemma flat_map_lookup_chunk {A B : Type} (f : A -> list B) (n : nat)
    (l : list A) (k c : nat) :
  (forall a, length (f a) = n) -> (c < n)%nat ->
  flat_map f l !! (k * n + c)%nat = (l !! k) ≫= (fun a => f a !! c).
Proof.
  intros Hn Hc. revert k; induction l as [|a l IH]; intros k; simpl.
  - now destruct k.
  - destruct k as [|k]; simpl.
    + rewrite lookup_app_l by (rewrite Hn; lia). reflexivity.
    + rewrite lookup_app_r by (rewrite Hn; lia).
      rewrite Hn. replace (n + k * n + c - n)%nat with (k * n + c)%nat by lia.
      apply IH.
Qed.

Module DequantMatricesFacts.
Import DequantMatrices.


(** *** The constructor *)

Lemma assign_library_default (fill : encoding) :
  assign_library (replicate kNum fill) 0 kNum
  = Returned (replicate kNum Instance.library0).
Proof. reflexivity. Qed.

(** The constructor installs eleven [Library(0)] entries and hands them
    with the fresh buffer to the table builder. *)
Lemma ctor_unfold Compute junk :
  ctor Compute junk
  = match Compute (replicate kNum Instance.library0) (ctor_buffer junk) with
    | Some r =>
        Returned (mk (c_table r) kDCQuant kInvDCQuant (c_offsets r)
                     (c_size r) (replicate kNum Instance.library0))
    | None => Aborted
    end.
Proof. reflexivity. Qed.

(** What the constructor returns when the table builder succeeds, and
    that it aborts exactly when the builder fails. *)
Lemma ctor_returned Compute junk m :
  ctor Compute junk = Returned m ->
  exists r,
    Compute (replicate kNum Instance.library0) (ctor_buffer junk) = Some r
    /\ m = mk (c_table r) kDCQuant kInvDCQuant (c_offsets r) (c_size r)
             (replicate kNum Instance.library0).
Proof.
  rewrite ctor_unfold.
  destruct (Compute _ _) as [r|] eqn:E; intros H; [|discriminate].
  exists r. split; [reflexivity|]. now inversion H.
Qed.

Lemma ctor_aborts_iff Compute junk :
  ctor Compute junk = Aborted
  <-> Compute (replicate kNum Instance.library0) (ctor_buffer junk) = None.
Proof.
  rewrite ctor_unfold.
  destruct (Compute _ _); split; intros; congruence.
Qed.

(** C4. A default-constructed [DequantMatrices] has DC quantizers
    1/4096, 1/512, 1/256 and inverse DC quantizers 4096, 512, 256, for
    channels 0, 1, 2. *)
Theorem default_dc_quantizers Compute junk (m : t)
    (Hctor : ctor Compute junk = Returned m) :
  denotes (DCQuant m 0) (1 # 4096) /\ denotes (InvDCQuant m 0) 4096
  /\ denotes (DCQuant m 1) (1 # 512) /\ denotes (InvDCQuant m 1) 512
  /\ denotes (DCQuant m 2) (1 # 256) /\ denotes (InvDCQuant m 2) 256.
Proof.
  apply ctor_returned in Hctor as (r & _ & ->).
  unfold DCQuant, InvDCQuant, denotes; cbn [dc_quant_ inv_dc_quant_].
  repeat split; reflexivity.
Qed.

Lemma default_dc_quantizers_witness :
  exists m, ctor Instance.Compute Instance.junk0 = Returned m
            /\ denotes (DCQuant m 0) (1 # 4096)
            /\ denotes (InvDCQuant m 2) 256.
Proof.
  destruct (ctor Instance.Compute Instance.junk0) as [m|] eqn:E;
    [|apply ctor_aborts_iff in E; vm_compute in E; discriminate E].
  exists m. split; [reflexivity|].
  pose proof (default_dc_quantizers Instance.Compute Instance.junk0 m E) as H.
  split; [apply H | apply H].
Defined.

(** *** Transform kinds and logical tables *)

Lemma fill_table_offsets_lookup (k c : nat) (q : QuantTable) :
  kQuantTable !! k = Some q -> (c < 3)%nat ->
  fill_table_offsets !! (k * 3 + c)%nat
  = Some (table_channel_offset (QuantTable_value q) c).
Proof.
  intros Hq Hc. unfold fill_table_offsets.
  rewrite (flat_map_lookup_chunk _ 3) by (reflexivity || assumption).
  rewrite Hq. cbn [mbind option_bind].
  rewrite list_lookup_fmap.
  destruct c as [|[|[|c]]]; try reflexivity; lia.
Qed.

(** For the transform kinds and channels there are, the index does not
    wrap. *)
Lemma MatrixOffset_in_range (m : t) (k c : nat) :
  (k < kNumValidStrategies)%nat -> (c < 3)%nat ->
  MatrixOffset m k c = table_offsets_ m !! (k * 3 + c)%nat.
Proof.
  unfold kNumValidStrategies, MatrixOffset, wrap_size_t, size_t_modulus.
  intros Hk Hc. f_equal. rewrite Z.mod_small by lia. lia.
Qed.

(** C5. [kQuantTable] has one entry per transform kind, 18 of them, each
    one of the 11 logical tables; two kinds with the same entry get the
    same pointer from [Matrix], and from [InvMatrix], for each of the
    three channels, hence the same weights. *)
Theorem shared_table_same_matrix (m : t) (kind1 kind2 c : nat)
    (q : QuantTable)
    (Hfill : table_offsets_ m = fill_table_offsets)
    (Hc : (c < 3)%nat)
    (H1 : kQuantTable !! kind1 = Some q)
    (H2 : kQuantTable !! kind2 = Some q) :
  length kQuantTable = kNumValidStrategies
  /\ Forall (fun q' => (QuantTable_value q' < kNum)%nat) kQuantTable
  /\ exists p,
       Matrix m kind1 c = Some p /\ Matrix m kind2 c = Some p
       /\ InvMatrix m kind1 c = Some (kTotalTableSize + p)
       /\ InvMatrix m kind2 c = Some (kTotalTableSize + p).
Proof.
  split; [reflexivity|]. split.
  { unfold kQuantTable, kNum. repeat constructor. }
  exists (table_channel_offset (QuantTable_value q) c).
  assert (Hk1 : (kind1 < kNumValidStrategies)%nat)
    by (apply lookup_lt_Some in H1; exact H1).
  assert (Hk2 : (kind2 < kNumValidStrategies)%nat)
    by (apply lookup_lt_Some in H2; exact H2).
  unfold InvMatrix, Matrix.
  rewrite !MatrixOffset_in_range by assumption. rewrite Hfill.
  rewrite !(fill_table_offsets_lookup _ c q) by assumption.
  repeat split.
Qed.

Lemma shared_table_same_matrix_witness :
  exists p,
    Matrix (mk [] [] [] fill_table_offsets 0 []) 6 2 = Some p
    /\ Matrix (mk [] [] [] fill_table_offsets 0 []) 7 2 = Some p.
Proof.
  destruct (shared_table_same_matrix (mk [] [] [] fill_table_offsets 0 [])
              6 7 2 DCT8X16 eq_refl ltac:(lia) eq_refl eq_refl)
    as (_ & _ & p & Hp1 & Hp2 & _).
  exists p. split; assumption.
Defined.

(** With the offsets modelled above, each logical table starts where the
    one before it ends, and the last one ends at [kTotalTableSize]: the
    forward tables fill the first half of the buffer. *)
Lemma tables_back_to_back (q : nat) :
  (q < kNum)%nat ->
  table_start (S q)
  = table_start q + 3 * (nth q required_size_ 0 * kDCTBlockSize)
  /\ table_channel_offset q 2 + nth q required_size_ 0 * kDCTBlockSize
     = table_start (S q).
Proof.
  unfold kNum. intros Hq.
  do 11 (destruct q as [|q]; [split; reflexivity|]). lia.
Qed.

Lemma tables_end : table_start 0 = 0 /\ table_start kNum = kTotalTableSize.
Proof. split; reflexivity. Qed.

(** *** Fail-fast preconditions *)

(** C8. [Library(idx)] with a [uint8_t] [idx >= kNumPredefinedTables],
    which is 1,
    aborts, and so does [SetCustom] on a vector whose size is not that
    of the 11 logical tables: neither yields a value or a status. *)
Theorem programmer_errors_abort Encode Decode Close (idx : Z)
    (encodings : list encoding) (m : t)
    (Huint8 : 0 <= idx < 256)
    (Hidx : kNumPredefinedTables <= idx)
    (Hsize : length encodings <> kNum) :
  kNumPredefinedTables = 1
  /\ kNum = 11%nat
  /\ QuantEncoding.Library idx = Aborted
  /\ SetCustom Encode Decode Close encodings m = Aborted.
Proof.
  split; [reflexivity|]. split; [reflexivity|]. split.
  - unfold QuantEncoding.Library, Library_internal.
    destruct (Z.ltb_spec idx kNumPredefinedTables); [lia | reflexivity].
  - unfold SetCustom.
    rewrite bool_decide_eq_false_2 by assumption. reflexivity.
Qed.

Lemma programmer_errors_abort_witness :
  QuantEncoding.Library 1 = Aborted
  /\ SetCustom Instance.Encode Instance.Decode Instance.Close
       (replicate 10 Instance.library0)
       (mk [] kDCQuant kInvDCQuant [] 0 []) = Aborted.
Proof.
  destruct (programmer_errors_abort
              Instance.Encode Instance.Decode Instance.Close 1
              (replicate 10 Instance.library0)
              (mk [] kDCQuant kInvDCQuant [] 0 []))
    as (_ & _ & HL & HS).
  - lia.
  - unfold kNumPredefinedTables. lia.
  - simpl. unfold kNum. lia.
  - split; assumption.
Defined.

(** *** SetCustom *)

(** [SetCustom] returns exactly when the size is right and the three
    checked steps succeed on the object that already holds the new
    encodings; what it returns is the object as [Decode] left it. *)
Lemma SetCustom_returned Encode Decode Close encodings m m' :
  SetCustom Encode Decode Close encodings m = Returned m'
  <-> length encodings = kNum
      /\ exists w br,
           Encode (set_encodings encodings m) [] = (true, w)
           /\ Decode (ZeroPadToByte w) (set_encodings encodings m)
              = (true, br, m')
           /\ Close br = true.
Proof.
  unfold SetCustom.
  destruct (bool_decide_reflect (length encodings = kNum)) as [Hl|Hl];
    cbn [JXL_ASSERT mbind outcome_bind].
  2: { split; [discriminate | intros [? _]; contradiction]. }
  destruct (Encode _ _) as [ok w] eqn:HE.
  destruct (Decode _ _) as [[ok' br] m2] eqn:HD.
  destruct ok; cbn [JXL_CHECK mbind outcome_bind].
  2: { split; [discriminate | intros (_ & ? & ? & ? & _); discriminate]. }
  destruct ok'; cbn [JXL_CHECK mbind outcome_bind].
  2: { split; [discriminate|].
       intros (_ & ? & ? & Hw & Hd & _). congruence. }
  destruct (Close br) eqn:Hc; cbn [JXL_CHECK mbind outcome_bind].
  - split.
    + intros [= <-]. split; [assumption|]. exists w, br. auto.
    + intros (_ & w' & br' & Hw & Hd & _). congruence.
  - split; [discriminate|].
    intros (_ & w' & br' & Hw & Hd & Hc'). congruence.
Qed.

Lemma default_matrices_ctor :
  ctor Instance.Compute Instance.junk0 = Returned Instance.default_matrices.
Proof. rewrite ctor_unfold. reflexivity. Qed.

(** With the sample arguments [SetCustom] returns on a RAW table without a
    zero. *)
Lemma SetCustom_valid_returns :
  exists m',
    SetCustom Instance.Encode Instance.Decode Instance.Close
      Instance.custom_valid Instance.default_matrices = Returned m'
    /\ encodings_ m' = Instance.custom_valid.
Proof. eexists. split; vm_compute; reflexivity. Qed.

(** *** SetCustomDC *)

(** The loop stores the caller's values as inverse DC quantizers and
    their reciprocals as DC quantizers; this is the object handed to
    [EncodeDC] and [DecodeDC]. *)
Lemma set_dc_loop_stores (dc : nat -> F32.t) (m : t) (c : nat) :
  length (dc_quant_ m) = 3%nat -> length (inv_dc_quant_ m) = 3%nat ->
  (c < 3)%nat ->
  DCQuant (set_dc_loop dc 0 3 m) c = Some (F32.div F32.one (dc c))
  /\ InvDCQuant (set_dc_loop dc 0 3 m) c = Some (dc c).
Proof.
  destruct m as [tb dq idq offs sz encs]; cbn [dc_quant_ inv_dc_quant_].
  intros Hd Hi Hc.
  destruct dq as [|d0 [|d1 [|d2 [|]]]]; try discriminate Hd.
  destruct idq as [|i0 [|i1 [|i2 [|]]]]; try discriminate Hi.
  destruct c as [|[|[|c]]]; try lia; split; reflexivity.
Qed.

(** [SetCustomDC] returns the object as [DecodeDC] left it. *)
Lemma SetCustomDC_returned EncodeDC DecodeDC Close dc m m' :
  SetCustomDC EncodeDC DecodeDC Close dc m = Returned m'
  <-> exists w br,
        EncodeDC (set_dc_loop dc 0 3 m) [] = (true, w)
        /\ DecodeDC (ZeroPadToByte w) (set_dc_loop dc 0 3 m) = (true, br, m')
        /\ Close br = true.
Proof.
  unfold SetCustomDC.
  destruct (EncodeDC _ _) as [ok w] eqn:HE.
  destruct (DecodeDC _ _) as [[ok' br] m2] eqn:HD.
  destruct ok; cbn [JXL_CHECK mbind outcome_bind].
  2: { split; [discriminate | intros (? & ? & ? & _); discriminate]. }
  destruct ok'; cbn [JXL_CHECK mbind outcome_bind].
  2: { split; [discriminate|]. intros (? & ? & Hw & Hd & _). congruence. }
  destruct (Close br) eqn:Hc; cbn [JXL_CHECK mbind outcome_bind].
  - split.
    + intros [= <-]. exists w, br. auto.
    + intros (w' & br' & Hw & Hd & _). congruence.
  - split; [discriminate|].
    intros (w' & br' & Hw & Hd & Hc'). congruence.
Qed.

(** *** Distance bands *)

Lemma kMaxDistanceBands_value : DctQuantWeightParams.kMaxDistanceBands = 17.
Proof. reflexivity. Qed.

End DequantMatricesFacts.

(** ** Ownership of the RAW table *)

Module QuantEncodingFacts.
Import QuantEncoding.

Lemma is_raw_true (m : Mode) : is_raw m = true <-> m = kQuantModeRAW.
Proof. destruct m; simpl; split; congruence. Qed.

Lemma is_raw_false (m : Mode) : is_raw m = false <-> m <> kQuantModeRAW.
Proof. destruct m; simpl; split; congruence. Qed.

(** A new vector never lands on a location in use. *)
Lemma new_vector_fresh (h : heap) (v : list Z) :
  h !! (new_vector h v).1 = None.
Proof. apply not_elem_of_dom, is_fresh. Qed.

Lemma qraw_qtable_set (p : ptr) (e : t) : qraw_qtable (set_qtable p e) = p.
Proof. reflexivity. Qed.

Lemma mode_set_qtable (p : ptr) (e : t) : mode (set_qtable p e) = mode e.
Proof. reflexivity. Qed.

(** The copy constructor on an owning RAW instance. *)
Lemma copy_ctor_raw (h : heap) (e : t) (l : loc) (v : list Z) :
  owns h e l v ->
  let l' := fresh (dom h) in
  copy_ctor h e = Some (<[l' := v]> h, set_qtable (Some l') e)
  /\ l' <> l /\ h !! l' = None.
Proof.
  intros (Hm & Hq & Hv) l'. unfold copy_ctor.
  rewrite (proj2 (is_raw_true _) Hm), Hq, Hv. cbn.
  split; [reflexivity|].
  assert (Hfresh : h !! l' = None) by apply (new_vector_fresh h v).
  split; [|exact Hfresh]. intros ->. congruence.
Qed.

Lemma dtor_raw (h : heap) (e : t) (l : loc) (v : list Z) :
  owns h e l v -> dtor h e = Some (delete l h).
Proof.
  intros (Hm & Hq & Hv). unfold dtor, delete_vector.
  now rewrite (proj2 (is_raw_true _) Hm), Hq, Hv.
Qed.

(** X13. Assigning a RAW instance that owns a table to itself deletes the
    table and then reads it: outside the defined behaviour. *)
Lemma copy_assign_self_undefined (h : heap) (e : t) (l : loc) (v : list Z) :
  owns h e l v -> copy_assign h e e = None.
Proof.
  intros (Hm & Hq & Hv). unfold copy_assign, delete_vector.
  rewrite (proj2 (is_raw_true _) Hm), Hq, Hv. cbn.
  now rewrite lookup_delete_eq.
Qed.

(** C7. Copy assignment of a RAW-mode instance is to deep-copy the owned
    table.  Assigned to itself, it does not: for [a] built by
    [RAW({8, 8, 9})], [a = a] first deletes the table of [a] (there is no
    guard), so the table it then reads to copy from is no longer in the
    store, and no copy is made. *)
Theorem self_assignment_reads_deleted_table :
  owns heap1 raw1 0%nat [8; 8; 9]
  /\ is_raw (mode raw1) = true
  /\ delete_vector heap1 0%nat = Some (delete 0%nat heap1)
  /\ delete 0%nat heap1 !! 0%nat = None
  /\ copy_assign heap1 raw1 raw1 = None.
Proof.
  assert (Hv : heap1 !! 0%nat = Some [8; 8; 9]) by (vm_compute; reflexivity).
  split_and!.
  - unfold owns. split_and!; [reflexivity | reflexivity | exact Hv].
  - reflexivity.
  - unfold delete_vector. now rewrite Hv.
  - apply lookup_delete_eq.
  - vm_compute. reflexivity.
Qed.

End QuantEncodingFacts.

(** ** The ownership discipline of the RAW table *)

Module Ownership.
Import QuantEncoding QuantEncodingFacts.

Lemma owned_cases (e : t) :
  owned e = []
  \/ exists l, owned e = [l] /\ mode e = kQuantModeRAW /\ qraw_qtable e = Some l.
Proof.
  unfold owned. destruct (is_raw (mode e)) eqn:Hr; [|now left].
  apply is_raw_true in Hr.
  destruct (qraw_qtable e) as [l|]; [right; eauto | now left].
Qed.

Lemma owned_non_raw (e : t) : mode e <> kQuantModeRAW -> owned e = [].
Proof. intros H. unfold owned. now rewrite (proj2 (is_raw_false _) H). Qed.

Lemma owned_set_qtable_Some (l : loc) (e : t) :
  mode e = kQuantModeRAW -> owned (set_qtable (Some l) e) = [l].
Proof. intros H. unfold owned. cbn [set_qtable mode]. now rewrite H. Qed.

Lemma owned_set_qtable_None (e : t) : owned (set_qtable None e) = [].
Proof. unfold owned. cbn [set_qtable mode]. now destruct (is_raw (mode e)). Qed.

Lemma owned_by_cons (e : t) (es : list t) :
  owned_by (e :: es) = owned e ++ owned_by es.
Proof. reflexivity. Qed.

Lemma owned_by_elem (e : t) (es : list t) (l : loc) :
  e ∈ es -> l ∈ owned e -> l ∈ owned_by es.
Proof. intros He Hl. unfold owned_by. apply list_elem_of_bind. eauto. Qed.

Lemma well_owned_nil : well_owned ∅ [].
Proof. split; [constructor | now rewrite dom_empty_L]. Qed.

Lemma well_owned_perm (h : heap) (es es' : list t) :
  es ≡ₚ es' -> well_owned h es -> well_owned h es'.
Proof.
  intros Hp [Hn Hd]. unfold well_owned, owned_by in *.
  rewrite <- Hp. auto.
Qed.

(** Assignment is destruction of the target followed by copy construction. *)
Lemma copy_assign_dtor_copy (h : heap) (this other : t) :
  copy_assign h this other = dtor h this ≫= fun h1 => copy_ctor h1 other.
Proof. reflexivity. Qed.

Lemma well_owned_cons_nil (h : heap) (e : t) (es : list t) :
  owned e = [] -> (well_owned h es <-> well_owned h (e :: es)).
Proof. intros He. unfold well_owned. rewrite owned_by_cons, He. reflexivity. Qed.

Lemma well_owned_cons_fresh (h : heap) (e : t) (es : list t) (l : loc)
    (v : list Z) :
  owned e = [l] -> h !! l = None -> well_owned h es ->
  well_owned (<[l := v]> h) (e :: es).
Proof.
  intros He Hf [Hn Hd]. unfold well_owned. rewrite owned_by_cons, He. cbn.
  split.
  - apply NoDup_cons. split; [|exact Hn].
    intros Hl. apply not_elem_of_dom in Hf. apply Hf. rewrite Hd.
    now apply elem_of_list_to_set.
  - rewrite dom_insert_L, Hd. reflexivity.
Qed.

Lemma well_owned_uncons (h : heap) (e : t) (es : list t) (l : loc) :
  owned e = [l] -> well_owned h (e :: es) ->
  exists v, h !! l = Some v /\ (l ∉ owned_by es) /\ well_owned (delete l h) es.
Proof.
  intros He. unfold well_owned. rewrite owned_by_cons, He. cbn.
  intros [Hn Hd]. apply NoDup_cons in Hn as [Hl Hn].
  assert (Hin : is_Some (h !! l)).
  { apply elem_of_dom. rewrite Hd. apply elem_of_union_l, elem_of_singleton.
    reflexivity. }
  destruct Hin as [v Hv]. exists v. split; [exact Hv|]. split; [exact Hl|].
  split; [exact Hn|].
  rewrite dom_delete_L, Hd. apply set_eq. intros k.
  rewrite elem_of_difference, elem_of_union, elem_of_singleton,
    elem_of_list_to_set.
  split.
  - intros [[->|Hk] Hne]; [contradiction | exact Hk].
  - intros Hk. split; [now right|]. intros ->. contradiction.
Qed.

Lemma well_owned_lookup (h : heap) (e : t) (es : list t) (l : loc) :
  well_owned h es -> e ∈ es -> owned e = [l] -> is_Some (h !! l).
Proof.
  intros [_ Hd] He Ho. apply elem_of_dom. rewrite Hd.
  apply elem_of_list_to_set. apply (owned_by_elem e); [exact He|].
  rewrite Ho. apply list_elem_of_here.
Qed.

Lemma dtor_owned_nil (h : heap) (e : t) : owned e = [] -> dtor h e = Some h.
Proof.
  unfold dtor, owned. destruct (is_raw (mode e)); [|reflexivity].
  destruct (qraw_qtable e); [discriminate | reflexivity].
Qed.

Lemma copy_ctor_owned_nil (h : heap) (e : t) :
  owned e = [] -> copy_ctor h e = Some (h, e).
Proof.
  unfold copy_ctor, owned. destruct (is_raw (mode e)); [|reflexivity].
  destruct (qraw_qtable e); [discriminate | reflexivity].
Qed.

Lemma dtor_well_owned (h : heap) (e : t) (es : list t) :
  well_owned h (e :: es) ->
  exists h',
    dtor h e = Some h'
    /\ well_owned h' es
    /\ forall k, k ∈ owned_by es -> h' !! k = h !! k.
Proof.
  intros Hw.
  destruct (owned_cases e) as [He | (l & He & Hm & Hq)].
  - exists h. split; [now apply dtor_owned_nil|].
    split; [now apply (well_owned_cons_nil h e es)|]. reflexivity.
  - destruct (well_owned_uncons h e es l He Hw) as (v & Hv & Hl & Hw').
    exists (delete l h). split; [now apply (dtor_raw h e l v)|].
    split; [exact Hw'|].
    intros k Hk. apply lookup_delete_ne. intros ->. contradiction.
Qed.

Lemma copy_ctor_well_owned (h : heap) (e : t) (es : list t) :
  well_owned h es -> e ∈ es ->
  exists h' c,
    copy_ctor h e = Some (h', c)
    /\ well_owned h' (c :: es)
    /\ (forall k, is_Some (h !! k) -> h' !! k = h !! k)
    /\ (forall l, owned e = [l] ->
          exists l', owned c = [l'] /\ l' <> l /\ h !! l' = None
                     /\ h' !! l' = h !! l)
    /\ (owned e = [] -> c = e /\ h' = h).
Proof.
  intros Hw He.
  destruct (owned_cases e) as [Ho | (l & Ho & Hm & Hq)].
  - exists h, e. split; [now apply copy_ctor_owned_nil|].
    split; [now apply well_owned_cons_nil|].
    split; [reflexivity|]. split; [|auto].
    intros l Hl. rewrite Ho in Hl. discriminate.
  - destruct (well_owned_lookup h e es l Hw He Ho) as [v Hv].
    destruct (copy_ctor_raw h e l v) as (Hc & Hne & Hf); [done|].
    set (l' := fresh (dom h)) in *.
    exists (<[l' := v]> h), (set_qtable (Some l') e).
    assert (Hoc : owned (set_qtable (Some l') e) = [l'])
      by now apply owned_set_qtable_Some.
    split; [exact Hc|].
    split; [now apply well_owned_cons_fresh|].
    split; [|split].
    + intros k [w Hk]. apply lookup_insert_ne. intros <-. congruence.
    + intros l1 Hl1. rewrite Ho in Hl1. injection Hl1 as <-.
      exists l'. split; [exact Hoc|]. split; [exact Hne|].
      split; [exact Hf|]. now rewrite lookup_insert_eq.
    + intros Hl. rewrite Ho in Hl. discriminate.
Qed.

Lemma RAW_well_owned (h : heap) (es : list t) (qtable : list Z) (shift : Z) :
  well_owned h es ->
  well_owned (RAW h qtable shift).1 ((RAW h qtable shift).2 :: es)
  /\ (forall k, is_Some (h !! k) -> (RAW h qtable shift).1 !! k = h !! k).
Proof.
  intros Hw.
  set (l := fresh (dom h)).
  assert (Hf : h !! l = None) by apply (new_vector_fresh h []).
  assert (HR : RAW h qtable shift
               = (<[l := qtable]> h,
                  set_qtable (Some l) (mkQE kQuantModeRAW
                    DctQuantWeightParams.default (U_qraw None shift)
                    DctQuantWeightParams.default 0))).
  { unfold RAW. cbn. f_equal. apply insert_insert_eq. }
  rewrite HR. cbn [fst snd]. split.
  - apply well_owned_cons_fresh; [reflexivity | exact Hf | exact Hw].
  - intros k [w Hk]. apply lookup_insert_ne. intros <-. congruence.
Qed.

Lemma RAW_dtor_restores (h : heap) (qtable : list Z) (shift : Z) :
  dtor (RAW h qtable shift).1 (RAW h qtable shift).2 = Some h.
Proof.
  set (l := fresh (dom h)).
  assert (Hf : h !! l = None) by apply (new_vector_fresh h []).
  unfold RAW, dtor, delete_vector. cbn. fold l.
  rewrite lookup_insert_eq. f_equal.
  rewrite !delete_insert_eq. now apply delete_id.
Qed.

(** Two live RAW objects and their store. *)
Lemma well_owned_heap1 : well_owned heap1 [raw1].
Proof. apply (RAW_well_owned ∅ [] [8; 8; 9] 0), well_owned_nil. Qed.

Lemma well_owned_heap2 : well_owned heap2 [raw2; raw1].
Proof. apply (RAW_well_owned heap1 [raw1] [4; 5] 1), well_owned_heap1. Qed.

Lemma raw1_in : raw1 ∈ [raw2; raw1].
Proof. apply list_elem_of_further, list_elem_of_here. Qed.

(** X1. [RAW] gives the new object a table of its own: a location the
    store did not hold, now holding the caller's table, and nothing else
    is allocated.  The object is in RAW mode with the given shift, the
    ownership discipline is kept, the tables of the others are untouched,
    and destroying the new object at once gives back the store as it
    was. *)
Theorem RAW_preserves_ownership (h : heap) (es : list t) (qtable : list Z)
    (shift : Z) (Hw : well_owned h es) :
  (exists l,
      h !! l = None
      /\ owned (RAW h qtable shift).2 = [l]
      /\ (RAW h qtable shift).1 !! l = Some qtable
      /\ dom (RAW h qtable shift).1 = {[ l ]} ∪ dom h)
  /\ mode (RAW h qtable shift).2 = kQuantModeRAW
  /\ qraw_qtable_den_shift (RAW h qtable shift).2 = shift
  /\ well_owned (RAW h qtable shift).1 ((RAW h qtable shift).2 :: es)
  /\ (forall k, is_Some (h !! k) -> (RAW h qtable shift).1 !! k = h !! k)
  /\ dtor (RAW h qtable shift).1 (RAW h qtable shift).2 = Some h.
Proof.
  destruct (RAW_well_owned h es qtable shift Hw) as [H1 H2].
  split_and!; [|reflexivity|reflexivity|exact H1|exact H2|
               apply RAW_dtor_restores].
  exists (fresh (dom h)). split_and!.
  - apply (new_vector_fresh h []).
  - reflexivity.
  - cbn. apply lookup_insert_eq.
  - cbn. rewrite !dom_insert_L.
    now rewrite (assoc_L (∪)), (idemp_L (∪)).
Qed.

Lemma RAW_preserves_ownership_witness :
  well_owned (RAW heap1 [4; 5] 1).1 ((RAW heap1 [4; 5] 1).2 :: [raw1]).
Proof.
  apply (RAW_preserves_ownership heap1 [raw1] [4; 5] 1 well_owned_heap1).
Defined.

(** X2. Copy construction from any live object is defined, keeps the
    ownership discipline with the copy as a further live object, leaves
    every existing table as it was and allocates nothing but the copy's
    table: the copy of an owning source gets a table of its own with the
    same contents, a source that owns nothing is copied without
    allocation.  Destroying the copy gives back the store as it was. *)
Theorem copy_ctor_preserves_ownership (h : heap) (e : t) (es : list t)
    (Hw : well_owned h es) (He : e ∈ es) :
  exists h' c,
    copy_ctor h e = Some (h', c)
    /\ well_owned h' (c :: es)
    /\ (forall k, is_Some (h !! k) -> h' !! k = h !! k)
    /\ (forall l, owned e = [l] ->
          exists l', owned c = [l'] /\ l' <> l /\ h !! l' = None
                     /\ h' !! l' = h !! l)
    /\ (owned e = [] -> c = e /\ h' = h)
    /\ dom h' = list_to_set (owned c) ∪ dom h
    /\ dtor h' c = Some h.
Proof.
  destruct (copy_ctor_well_owned h e es Hw He)
    as (h' & c & Hc & Hw' & Hframe & Hcopy & Hnil).
  exists h', c. split; [exact Hc|]. split; [exact Hw'|].
  split; [exact Hframe|]. split; [exact Hcopy|]. split; [exact Hnil|].
  split.
  { destruct Hw as [_ Hd]. destruct Hw' as [_ Hd'].
    rewrite Hd', Hd, owned_by_cons. apply list_to_set_app_L. }
  destruct (owned_cases e) as [Ho | (l & Ho & Hm & Hq)].
  - destruct (Hnil Ho) as [-> ->]. now apply dtor_owned_nil.
  - destruct (well_owned_lookup h e es l Hw He Ho) as [v Hv].
    destruct (copy_ctor_raw h e l v) as (Hc' & Hne & Hf); [done|].
    rewrite Hc' in Hc. injection Hc as <- <-.
    unfold dtor, delete_vector. cbn [set_qtable mode].
    rewrite (proj2 (is_raw_true _) Hm). cbn.
    rewrite lookup_insert_eq, delete_insert_eq. f_equal. now apply delete_id.
Qed.

Lemma copy_ctor_preserves_ownership_witness :
  exists h' c, copy_ctor heap2 raw1 = Some (h', c) /\ dtor h' c = Some heap2.
Proof.
  destruct (copy_ctor_preserves_ownership heap2 raw1 [raw2; raw1]
              well_owned_heap2 raw1_in)
    as (h' & c & Hc & _ & _ & _ & _ & _ & Hd).
  exists h', c. split; assumption.
Defined.

(** X3. Move construction leaves the store alone and hands the source's
    table, if any, to the new object: the source owns nothing afterwards
    and its destruction releases nothing. *)
Theorem move_ctor_preserves_ownership (h : heap) (e : t) (es : list t)
    (Hw : well_owned h (e :: es)) :
  well_owned h ((move_ctor e).1 :: (move_ctor e).2 :: es)
  /\ owned (move_ctor e).1 = owned e
  /\ owned (move_ctor e).2 = []
  /\ dtor h (move_ctor e).2 = Some h.
Proof.
  assert (H1 : (move_ctor e).1 = e)
    by (unfold move_ctor; now destruct (is_raw (mode e))).
  assert (H2 : owned (move_ctor e).2 = []).
  { unfold move_ctor. destruct (is_raw (mode e)) eqn:Hr; cbn [snd].
    - apply owned_set_qtable_None.
    - apply owned_non_raw. now apply is_raw_false. }
  rewrite H1. split; [|split; [reflexivity|split; [exact H2|]]].
  - apply (well_owned_perm h ((move_ctor e).2 :: e :: es)).
    + apply perm_swap.
    + now apply well_owned_cons_nil.
  - now apply dtor_owned_nil.
Qed.

Lemma move_ctor_preserves_ownership_witness :
  owned (move_ctor raw2).2 = [] /\ dtor heap2 (move_ctor raw2).2 = Some heap2.
Proof.
  destruct (move_ctor_preserves_ownership heap2 raw2 [raw1] well_owned_heap2)
    as (_ & _ & H1 & H2).
  split; assumption.
Defined.

(** X4. Copy assignment between two different live objects is defined and
    keeps the ownership discipline: the target's old table is released,
    the source keeps its table, and the target gets a table of its own
    with the same contents (or none, when the source owns none). *)
Theorem copy_assign_preserves_ownership (h : heap) (this other : t)
    (es : list t)
    (Hw : well_owned h (this :: es)) (Ho : other ∈ es) :
  exists h' assigned,
    copy_assign h this other = Some (h', assigned)
    /\ well_owned h' (assigned :: es)
    /\ (forall l, owned other = [l] ->
          exists l', owned assigned = [l'] /\ l' <> l
                     /\ h' !! l' = h !! l /\ h' !! l = h !! l)
    /\ (owned other = [] -> assigned = other).
Proof.
  rewrite copy_assign_dtor_copy.
  destruct (dtor_well_owned h this es Hw) as (h1 & Hd & Hw1 & Hframe).
  rewrite Hd. cbn [mbind option_bind].
  destruct (copy_ctor_well_owned h1 other es Hw1 Ho)
    as (h' & c & Hc & Hw' & Hframe' & Hcopy & Hnil).
  exists h', c. split; [exact Hc|]. split; [exact Hw'|]. split.
  - intros l Hl. destruct (Hcopy l Hl) as (l' & Hoc & Hne & _ & Hv).
    assert (Hk : h1 !! l = h !! l).
    { apply Hframe. apply (owned_by_elem other); [exact Ho|].
      rewrite Hl. apply list_elem_of_here. }
    exists l'. split; [exact Hoc|]. split; [exact Hne|].
    split; [congruence|]. rewrite <- Hk. apply Hframe'.
    apply (well_owned_lookup h1 other es l Hw1 Ho Hl).
  - intros Hl. now destruct (Hnil Hl).
Qed.

Lemma copy_assign_preserves_ownership_witness :
  exists h' assigned,
    copy_assign heap2 raw2 raw1 = Some (h', assigned)
    /\ well_owned h' [assigned; raw1].
Proof.
  destruct (copy_assign_preserves_ownership heap2 raw2 raw1 [raw1]
              well_owned_heap2 ltac:(apply list_elem_of_here))
    as (h' & a & Hc & Hw & _).
  exists h', a. split; assumption.
Defined.

(** X5. Destroying every live object once, in the order given, is defined
    at each step and leaves the empty store: nothing is released twice
    and nothing leaks. *)
Theorem destroy_all_empties (h : heap) (es : list t)
    (Hw : well_owned h es) :
  destroy_all h es = Some ∅.
Proof.
  revert h Hw. induction es as [|e es IH]; intros h Hw.
  - destruct Hw as [_ Hd]. cbn in *. f_equal.
    apply dom_empty_inv_L. exact Hd.
  - destruct (dtor_well_owned h e es Hw) as (h' & Hd & Hw' & _).
    cbn [destroy_all]. rewrite Hd. cbn [mbind option_bind]. now apply IH.
Qed.

Lemma destroy_all_empties_witness : destroy_all heap2 [raw2; raw1] = Some ∅.
Proof. apply (destroy_all_empties heap2 [raw2; raw1] well_owned_heap2). Defined.

(** X6. Destroying a live object twice is undefined when it owns a table:
    the second [delete] meets a pointer the store no longer holds. *)
Theorem dtor_twice_undefined (h : heap) (e : t) (es : list t) (l : loc)
    (Hw : well_owned h (e :: es)) (Ho : owned e = [l]) :
  (dtor h e ≫= fun h' => dtor h' e) = None.
Proof.
  destruct (owned_cases e) as [He | (l' & He & Hm & Hq)];
    [rewrite He in Ho; discriminate|].
  destruct (well_owned_uncons h e es l' He Hw) as (v & Hv & _ & _).
  rewrite (dtor_raw h e l' v) by done. cbn.
  unfold dtor, delete_vector. rewrite (proj2 (is_raw_true _) Hm), Hq.
  now rewrite lookup_delete_eq.
Qed.

Lemma dtor_twice_undefined_witness :
  (dtor heap2 raw2 ≫= fun h' => dtor h' raw2) = None.
Proof.
  apply (dtor_twice_undefined heap2 raw2 [raw1] 1%nat well_owned_heap2).
  vm_compute. reflexivity.
Defined.

Lemma copy_assign_self_undefined_witness :
  copy_assign heap2 raw2 raw2 = None.
Proof.
  apply (copy_assign_self_undefined heap2 raw2 1%nat [4; 5]).
  unfold owns. split_and!; vm_compute; reflexivity.
Defined.

End Ownership.

(** ** Further facts about the header *)

Module HeaderFacts.
Import DequantMatrices DequantMatricesFacts.

Lemma sum_size_t_nonneg (l : list Z) :
  Forall is_size_t l -> 0 <= fold_right Z.add 0 l.
Proof.
  induction 1 as [|x l Hx _ IH]; simpl; [lia|]. unfold is_size_t in Hx. lia.
Qed.

Lemma sum_app (l1 l2 : list Z) :
  fold_right Z.add 0 (l1 ++ l2)
  = fold_right Z.add 0 l1 + fold_right Z.add 0 l2.
Proof. induction l1 as [|x l1 IH]; simpl; [reflexivity|]. rewrite IH. lia. Qed.

(** X7. For an array of [size_t] values and an index [i] inside it,
    [ArraySum(a, i)] is the sum of [a[0..i]] reduced modulo 2^64, and with
    the default index the sum of the whole array modulo 2^64; the result
    is a [size_t] value.  When the whole sum is below 2^64 nothing wraps:
    the results are the sums themselves, and the whole sum is
    [ArraySum(a, i)] plus the sum of the elements after [i]. *)
Theorem ArraySum_adds_elements (a : list Z) (i : nat)
    (Ha : Forall is_size_t a) (Hi : (i < length a)%nat) :
  ArraySum a i = wrap_size_t (fold_right Z.add 0 (take (S i) a))
  /\ ArraySumAll a = wrap_size_t (fold_right Z.add 0 a)
  /\ is_size_t (ArraySum a i)
  /\ (fold_right Z.add 0 a < size_t_modulus ->
      ArraySum a i = fold_right Z.add 0 (take (S i) a)
      /\ ArraySumAll a = fold_right Z.add 0 a
      /\ ArraySumAll a = ArraySum a i + fold_right Z.add 0 (drop (S i) a)).
Proof.
  assert (Hne : a <> []) by (destruct a; simpl in Hi; [lia | discriminate]).
  pose proof (ArraySum_take a i Ha Hi) as H1.
  pose proof (ArraySumAll_sum a Ha Hne) as H2.
  assert (Hsplit : fold_right Z.add 0 a
                   = fold_right Z.add 0 (take (S i) a)
                     + fold_right Z.add 0 (drop (S i) a)).
  { rewrite <- sum_app. now rewrite take_drop. }
  assert (Ht : 0 <= fold_right Z.add 0 (take (S i) a))
    by (apply sum_size_t_nonneg, Forall_take, Ha).
  assert (Hd : 0 <= fold_right Z.add 0 (drop (S i) a))
    by (apply sum_size_t_nonneg, Forall_drop, Ha).
  split; [exact H1|]. split; [exact H2|]. split.
  { rewrite H1. unfold is_size_t, wrap_size_t, size_t_modulus.
    apply Z.mod_pos_bound. lia. }
  intros Hsmall. rewrite H1, H2. unfold wrap_size_t.
  rewrite !Z.mod_small by lia. split; [reflexivity|]. split; [reflexivity|].
  exact Hsplit.
Qed.

Lemma ArraySum_adds_elements_witness :
  ArraySum [2 ^ 64 - 1; 1] 1 = 0 /\ ArraySumAll [5; 7; 11] = 23.
Proof.
  split.
  - destruct (ArraySum_adds_elements [2 ^ 64 - 1; 1] 1) as (H1 & _).
    + repeat constructor; unfold is_size_t, size_t_modulus; lia.
    + simpl. lia.
    + rewrite H1. reflexivity.
  - destruct (ArraySum_adds_elements [5; 7; 11] 0) as (_ & H2 & _).
    + repeat constructor; unfold is_size_t, size_t_modulus; lia.
    + simpl. lia.
    + rewrite H2. reflexivity.
Defined.

Lemma drop_repeat {A : Type} (x : A) (n m : nat) :
  drop n (repeat x m) = repeat x (m - n).
Proof.
  revert m; induction n as [|n IH]; intros [|m]; simpl; try reflexivity.
  apply IH.
Qed.

Lemma memcpy_whole (dst src : list F32.t) (n : nat) :
  length src = n -> (n <= length dst)%nat ->
  DctQuantWeightParams.memcpy dst src n = Some (src ++ drop n dst).
Proof.
  intros <- H. unfold DctQuantWeightParams.memcpy.
  rewrite (proj2 (Nat.leb_le _ _) H), Nat.leb_refl. cbn.
  now rewrite firstn_all.
Qed.

(** X8. The template constructor copies the given bands into the front of
    each channel's 17 slots and leaves the other slots zero; with more
    than 17 bands the copy runs past the array, which nothing checks. *)
Theorem of_bands_copies (r0 r1 r2 : list F32.t) (n : nat)
    (H0 : length r0 = n) (H1 : length r1 = n) (H2 : length r2 = n) :
  ((n <= 17)%nat ->
     DctQuantWeightParams.of_bands [r0; r1; r2] n
     = Some (DctQuantWeightParams.mk (Z.of_nat n)
               [r0 ++ repeat F32.zero (17 - n);
                r1 ++ repeat F32.zero (17 - n);
                r2 ++ repeat F32.zero (17 - n)]))
  /\ ((17 < n)%nat -> DctQuantWeightParams.of_bands [r0; r1; r2] n = None).
Proof.
  unfold DctQuantWeightParams.of_bands, DctQuantWeightParams.default.
  change (Z.to_nat DctQuantWeightParams.kMaxDistanceBands) with 17%nat.
  cbn [DctQuantWeightParams.distance_bands].
  set (z := repeat F32.zero 17).
  assert (Hz : length z = 17%nat) by reflexivity.
  change (repeat z 3) with [z; z; z].
  split; intros Hn.
  - cbn [DctQuantWeightParams.copy_rows lookup list_lookup mbind option_bind].
    rewrite (memcpy_whole z r0 n) by lia.
    cbn [DctQuantWeightParams.copy_rows lookup list_lookup mbind option_bind
         insert list_insert].
    rewrite (memcpy_whole z r1 n) by lia.
    cbn [DctQuantWeightParams.copy_rows lookup list_lookup mbind option_bind
         insert list_insert].
    rewrite (memcpy_whole z r2 n) by lia.
    cbn [DctQuantWeightParams.copy_rows lookup list_lookup mbind option_bind
         insert list_insert].
    unfold z. rewrite !drop_repeat. reflexivity.
  - cbn [DctQuantWeightParams.copy_rows lookup list_lookup mbind option_bind].
    unfold DctQuantWeightParams.memcpy.
    assert (Hb : (n <=? length z)%nat = false) by (apply Nat.leb_gt; lia).
    rewrite Hb. reflexivity.
Qed.

Lemma of_bands_copies_witness :
  DctQuantWeightParams.of_bands
    [[F32.lit 10 0; F32.one]; [F32.lit 9 0; F32.one]; [F32.lit 8 0; F32.one]] 2
  = Some (DctQuantWeightParams.mk 2
            [[F32.lit 10 0; F32.one] ++ repeat F32.zero 15;
             [F32.lit 9 0; F32.one] ++ repeat F32.zero 15;
             [F32.lit 8 0; F32.one] ++ repeat F32.zero 15]).
Proof.
  apply (of_bands_copies [F32.lit 10 0; F32.one] [F32.lit 9 0; F32.one]
           [F32.lit 8 0; F32.one] 2 eq_refl eq_refl eq_refl).
  lia.
Defined.

(** X9. The default constructor aborts exactly when the table builder fails
    on eleven [Library(0)] entries and the fresh buffer; the index check of
    [Library(0)] never fires.  When it returns, the object holds those
    eleven entries, the default DC quantizers and what the builder
    produced. *)
Theorem ctor_outcome Compute (junk : nat -> F32.t) :
  (ctor Compute junk = Aborted
   <-> Compute (replicate kNum Instance.library0) (ctor_buffer junk) = None)
  /\ forall m,
       ctor Compute junk = Returned m ->
       length (encodings_ m) = kNum
       /\ Forall (fun e => mode e = kQuantModeLibrary /\ predefined e = 0)
                 (encodings_ m)
       /\ dc_quant_ m = kDCQuant /\ inv_dc_quant_ m = kInvDCQuant
       /\ Compute (encodings_ m) (ctor_buffer junk)
          = Some (mk_computed (table_ m) (table_offsets_ m) (size_ m)).
Proof.
  split; [apply ctor_aborts_iff|].
  intros m Hm. apply ctor_returned in Hm as (r & Hr & ->).
  cbn [encodings_ dc_quant_ inv_dc_quant_ table_ table_offsets_ size_].
  split; [reflexivity|]. split.
  { unfold kNum. cbn [replicate]. repeat constructor. }
  split; [reflexivity|]. split; [reflexivity|].
  rewrite Hr. now destruct r.
Qed.

Lemma ctor_outcome_witness :
  length (encodings_ Instance.default_matrices) = kNum.
Proof.
  apply (ctor_outcome Instance.Compute Instance.junk0).
  apply default_matrices_ctor.
Defined.

(** X10. [SetCustom] does not look at the encodings installed before: they
    are overwritten first.  It aborts exactly when the size is not 11 or
    one of [Encode], [Decode], [Close] fails, and otherwise returns the
    object as [Decode] left it. *)
Theorem SetCustom_outcome Encode Decode Close
    (encodings previous : list encoding) (m : t) :
  let m1 := set_encodings encodings m in
  let w := ZeroPadToByte (Encode m1 []).2 in
  let d := Decode w m1 in
  SetCustom Encode Decode Close encodings (set_encodings previous m)
  = SetCustom Encode Decode Close encodings m
  /\ (SetCustom Encode Decode Close encodings m = Aborted
      <-> length encodings <> kNum \/ (Encode m1 []).1 = false
          \/ d.1.1 = false \/ Close d.1.2 = false)
  /\ (SetCustom Encode Decode Close encodings m <> Aborted ->
      SetCustom Encode Decode Close encodings m = Returned d.2).
Proof.
  cbv zeta. split; [reflexivity|].
  unfold SetCustom.
  destruct (bool_decide_reflect (length encodings = kNum)) as [Hl|Hl];
    cbn [JXL_ASSERT mbind outcome_bind].
  2: { split; [split; [auto | reflexivity] | congruence]. }
  destruct (Encode _ _) as [ok w] eqn:HE. cbn [fst snd].
  destruct (Decode _ _) as [[ok' br] m2] eqn:HD. cbn [fst snd].
  destruct ok; cbn [JXL_CHECK mbind outcome_bind].
  2: { split; [split; [auto | reflexivity] | congruence]. }
  destruct ok'; cbn [JXL_CHECK mbind outcome_bind].
  2: { split; [split; [auto | reflexivity] | congruence]. }
  destruct (Close br) eqn:Hc; cbn [JXL_CHECK mbind outcome_bind].
  - split; [|reflexivity]. split; [discriminate|].
    intros [?|[?|[?|?]]]; congruence.
  - split; [split; [auto | reflexivity] | congruence].
Qed.

Lemma SetCustom_outcome_witness :
  SetCustom Instance.Encode Instance.Decode Instance.Close
    Instance.custom_valid Instance.default_matrices
  = Returned
      (Instance.Decode
         (ZeroPadToByte
            (Instance.Encode
               (set_encodings Instance.custom_valid
                  Instance.default_matrices) []).2)
         (set_encodings Instance.custom_valid Instance.default_matrices)).2.
Proof.
  apply (SetCustom_outcome Instance.Encode Instance.Decode Instance.Close
           Instance.custom_valid [] Instance.default_matrices).
  destruct SetCustom_valid_returns as (m' & Hm & _).
  rewrite Hm. discriminate.
Defined.

(** X11. [SetCustomDC] reads [dc[0]], [dc[1]], [dc[2]] and nothing else,
    and overwrites all three DC quantizers and inverse DC quantizers,
    whatever they were, before the round trip; tables, offsets, size and
    encodings go to the codec untouched, and what is returned is the
    object as [DecodeDC] left it. *)
Theorem SetCustomDC_stores_then_round_trips EncodeDC DecodeDC Close
    (dc dc' : nat -> F32.t) (m : t)
    (Hd : length (dc_quant_ m) = 3%nat)
    (Hi : length (inv_dc_quant_ m) = 3%nat)
    (Hagree : forall c, (c < 3)%nat -> dc c = dc' c) :
  let stored :=
    mk (table_ m)
       [F32.div F32.one (dc 0%nat); F32.div F32.one (dc 1%nat);
        F32.div F32.one (dc 2%nat)]
       [dc 0%nat; dc 1%nat; dc 2%nat]
       (table_offsets_ m) (size_ m) (encodings_ m) in
  set_dc_loop dc 0 3 m = stored
  /\ SetCustomDC EncodeDC DecodeDC Close dc m
     = SetCustomDC EncodeDC DecodeDC Close dc' m
  /\ forall m',
       SetCustomDC EncodeDC DecodeDC Close dc m = Returned m' ->
       exists w br,
         EncodeDC stored [] = (true, w)
         /\ DecodeDC (ZeroPadToByte w) stored = (true, br, m')
         /\ Close br = true.
Proof.
  cbv zeta.
  assert (Hs : forall f, set_dc_loop f 0 3 m
                 = mk (table_ m)
                      [F32.div F32.one (f 0%nat); F32.div F32.one (f 1%nat);
                       F32.div F32.one (f 2%nat)]
                      [f 0%nat; f 1%nat; f 2%nat]
                      (table_offsets_ m) (size_ m) (encodings_ m)).
  { intros f. destruct m as [tb dq idq offs sz encs].
    cbn [dc_quant_ inv_dc_quant_] in Hd, Hi.
    destruct dq as [|d0 [|d1 [|d2 [|]]]]; try discriminate Hd.
    destruct idq as [|i0 [|i1 [|i2 [|]]]]; try discriminate Hi.
    reflexivity. }
  split; [apply Hs|]. split.
  - unfold SetCustomDC. rewrite (Hs dc), (Hs dc').
    rewrite !Hagree by lia. reflexivity.
  - intros m' Hm. apply SetCustomDC_returned in Hm. rewrite (Hs dc) in Hm.
    exact Hm.
Qed.

Lemma SetCustomDC_stores_then_round_trips_witness :
  DCQuant (set_dc_loop (fun _ => F32.lit 2 0) 0 3 Instance.default_matrices)
          0
  = Some (F32.lit 1 (-1)).
Proof.
  destruct (SetCustomDC_stores_then_round_trips
              (fun m w => (true, w)) (fun br m => (true, br, m))
              Instance.Close (fun _ => F32.lit 2 0) (fun _ => F32.lit 2 0)
              Instance.default_matrices eq_refl eq_refl
              (fun c _ => eq_refl)) as (Hs & _).
  rewrite Hs. reflexivity.
Defined.



End HeaderFacts.
